(** * Metadata sidebar: the editor-list reconciliation logic

    A shallow embedding of [src/components/ContentSidebar/MetadataSidebar.js]
    (class [MetadataSidebar]) and the properties of its editor store, its
    request handlers and its [render] method.

    Conventions of the embedding.
    - A JavaScript array is a [list]; array indices and the results of
      [indexOf] / [findIndex] are integers ([Z]), because the code relies on
      the value [-1].
    - A JavaScript object that the component compares with [===] (a metadata
      editor) carries its heap address.  Editor objects are never mutated
      once they are published in [this.state] (the only assignment,
      [editor.isDirty = isDirty], is made on a freshly allocated copy), so
      an object is faithfully described by its address together with its
      contents, and two values denote the same object exactly when they are
      equal.
    - [this.state], [this.props], the allocator of the heap and the log of
      the calls made on the metadata API form one record, [Component]; every
      method is a function from [Component] to [Component].
    - The continuations handed to the metadata API are closures; they are
      represented first-order by [Callback], with the captured variables as
      arguments, and run by [invoke].
    - Each handler runs as one React update: [setState] merges the given
      fields into [this.state] at once. *)

From stdpp Require Import base numbers list strings.

(** ** JavaScript values and arrays *)

Module Js.

(** The values a loosely typed field can hold, as far as [!!v] can tell
    them apart. *)
Inductive value :=
| Undefined
| Null
| Bool (b : bool)
| Number (n : Z)
| Str (s : string)
| Object.

(** [!!v] *)
Definition ToBoolean (v : value) : bool :=
  match v with
  | Undefined | Null => false
  | Bool b => b
  | Number n => negb (n =? 0)%Z
  | Str s => negb (String.eqb s EmptyString)
  | Object => true
  end.

Section Array.
Context {A : Type}.
Local Open Scope Z_scope.

(** [array.length] *)
Definition length (l : list A) : Z := Z.of_nat (List.length l).

(** A relative start index, as [slice] and [splice] resolve it:
    negative values count from the end. *)
Definition relative (len start : Z) : Z :=
  if start <? 0 then Z.max (len + start) 0 else Z.min start len.

(** [array.slice(start)] *)
Definition slice (start : Z) (l : list A) : list A :=
  drop (Z.to_nat (relative (length l) start)) l.

(** [array.splice(start, deleteCount, ...items)], as the array it leaves
    behind. *)
Definition splice (start deleteCount : Z) (items l : list A) : list A :=
  let len := length l in
  let actualStart := relative len start in
  let actualDeleteCount := Z.min (Z.max deleteCount 0) (len - actualStart) in
  take (Z.to_nat actualStart) l ++ items
    ++ drop (Z.to_nat (actualStart + actualDeleteCount)) l.

(** [array.push(x)] *)
Definition push (x : A) (l : list A) : list A := l ++ [x].

Fixpoint findIndexFrom (i : Z) (p : A → bool) (l : list A) : Z :=
  match l with
  | [] => -1
  | x :: l' => if p x then i else findIndexFrom (i + 1) p l'
  end.

(** [array.findIndex(p)] *)
Definition findIndex (p : A → bool) (l : list A) : Z := findIndexFrom 0 p l.

(** [array.find(p)]; [None] is [undefined]. *)
Fixpoint find (p : A → bool) (l : list A) : option A :=
  match l with
  | [] => None
  | x :: l' => if p x then Some x else find p l'
  end.

(** [array.indexOf(x)], with [strict] the comparison [===] on [A]. *)
Definition indexOf (strict : A → A → bool) (x : A) (l : list A) : Z :=
  findIndex (λ y, strict y x) l.

(** [array[index]]; [None] is [undefined]. *)
Definition get (index : Z) (l : list A) : option A :=
  if index <? 0 then None else l !! Z.to_nat index.
End Array.

End Js.

(** ** Data model *)

Record MetadataInstance := {
  id : string;
  data : list (string * string)
}.

Record MetadataEditorTemplate := {
  templateKey : string
}.

Record MetadataEditor := {
  address : nat;  (* identity of the object *)
  instance : MetadataInstance;
  template : MetadataEditorTemplate;
  isDirty : bool
}.

Record JsonPatchOp := {
  op : string;
  path : string;
  value : string
}.

Definition JsonPatchData := list JsonPatchOp.

Record BoxItemPermission := {
  can_upload : Js.value
}.

(** [permissions?: BoxItemPermission] *)
Record BoxItem := {
  file_id : string;
  permissions : option BoxItemPermission
}.

#[global] Instance MetadataInstance_eq_dec : EqDecision MetadataInstance.
Proof. solve_decision. Defined.
#[global] Instance MetadataEditorTemplate_eq_dec : EqDecision MetadataEditorTemplate.
Proof. solve_decision. Defined.
#[global] Instance MetadataEditor_eq_dec : EqDecision MetadataEditor.
Proof. solve_decision. Defined.

(** [a === b] on editor objects: the same object. *)
Definition strictEquals (a b : MetadataEditor) : bool := bool_decide (a = b).

(** [type State] *)
Record State := {
  editors : option (list MetadataEditor);
  templates : option (list MetadataEditorTemplate);
  isLoading : bool;
  hasError : bool
}.

(** [type Props], without the API object, whose calls are logged. *)
Record Props := {
  file : BoxItem;
  getMetadata : option nat;  (* an opaque function, if given *)
  isFeatureEnabled : option bool
}.

(** The continuations passed to the metadata API. *)
Inductive Callback :=
| getEditorsSuccess                             (* the arrow function of getMetadataEditors *)
| errorCallbackRef                              (* this.errorCallback *)
| removeSuccess (editor : MetadataEditor)       (* () => this.onRemoveSuccessHandler(editor) *)
| addSuccess                                    (* this.onAddSuccessHandler *)
| saveSuccess (oldEditor : MetadataEditor).     (* newEditor => this.onSaveSuccessHandler(oldEditor, newEditor) *)

(** The calls [api.getMetadataAPI(shouldDestroy).method(...)]. *)
Inductive ApiCall :=
| getEditors (shouldDestroy : bool) (f : BoxItem) (success error : Callback)
    (getMetadataArg : option nat) (isFeatureEnabledArg : bool)
| deleteMetadata (shouldDestroy : bool) (f : BoxItem) (t : MetadataEditorTemplate)
    (success error : Callback)
| createMetadata (shouldDestroy : bool) (f : BoxItem) (t : MetadataEditorTemplate)
    (success error : Callback)
| updateMetadata (shouldDestroy : bool) (f : BoxItem) (t : MetadataEditorTemplate)
    (ops : JsonPatchData) (success error : Callback).

(** What the API passes to a continuation. *)
Inductive Payload :=
| nothing
| editorsAndTemplates (es : list MetadataEditor) (ts : list MetadataEditorTemplate)
| oneEditor (e : MetadataEditor).

Record Component := {
  props : Props;
  state : State;
  heap_next : nat;        (* the next free address *)
  calls : list ApiCall    (* the API calls made so far, oldest first *)
}.

(** ** [setState] *)

Inductive Field :=
| Editors (es : list MetadataEditor)
| Templates (ts : list MetadataEditorTemplate)
| IsLoading (b : bool)
| HasError (b : bool).

Definition assign (s : State) (fld : Field) : State :=
  match fld with
  | Editors es => {| editors := Some es; templates := templates s;
                     isLoading := isLoading s; hasError := hasError s |}
  | Templates ts => {| editors := editors s; templates := Some ts;
                       isLoading := isLoading s; hasError := hasError s |}
  | IsLoading b => {| editors := editors s; templates := templates s;
                      isLoading := b; hasError := hasError s |}
  | HasError b => {| editors := editors s; templates := templates s;
                     isLoading := isLoading s; hasError := b |}
  end.

Definition setState (update : list Field) (c : Component) : Component :=
  {| props := props c; state := foldl assign (state c) update;
     heap_next := heap_next c; calls := calls c |}.

(** Issue one API call. *)
Definition call (a : ApiCall) (c : Component) : Component :=
  {| props := props c; state := state c;
     heap_next := heap_next c; calls := calls c ++ [a] |}.

(** [{ ...editor }]: a copy at a fresh address. *)
Definition spread (e : MetadataEditor) (c : Component) : MetadataEditor * Component :=
  ({| address := heap_next c; instance := instance e;
      template := template e; isDirty := isDirty e |},
   {| props := props c; state := state c;
      heap_next := S (heap_next c); calls := calls c |}).

(** [editor.isDirty = isDirty] on an unpublished copy. *)
Definition set_isDirty (b : bool) (e : MetadataEditor) : MetadataEditor :=
  {| address := address e; instance := instance e;
     template := template e; isDirty := b |}.

(** ** The component *)

(** [state = { isLoading: false, hasError: false }] *)
Definition initialState : State :=
  {| editors := None; templates := None; isLoading := false; hasError := false |}.

Definition construct (p : Props) (heap : nat) : Component :=
  {| props := p; state := initialState; heap_next := heap; calls := [] |}.

Definition errorCallback (c : Component) : Component :=
  setState [IsLoading false; HasError true] c.

Definition getEditorsSuccessHandler
    (es : list MetadataEditor) (ts : list MetadataEditorTemplate)
    (c : Component) : Component :=
  setState [Templates ts; Editors (Js.slice 0 es); IsLoading false; HasError false] c.

Definition getMetadataEditors (c : Component) : Component :=
  let isFeatureEnabled := default true (isFeatureEnabled (props c)) in
  call (getEditors true (file (props c)) getEditorsSuccess errorCallbackRef
          (getMetadata (props c)) isFeatureEnabled) c.

Definition componentDidMount (c : Component) : Component :=
  getMetadataEditors c.

(** [{}] read as a [BoxItemPermission]: every field is absent. *)
Definition emptyObject : BoxItemPermission := {| can_upload := Js.Undefined |}.

Definition canEdit (c : Component) : bool :=
  let permissions := default emptyObject (permissions (file (props c))) in
  Js.ToBoolean (can_upload permissions).

Definition getEditor (i : string) (c : Component) : option MetadataEditor :=
  let editors := default [] (editors (state c)) in
  Js.find (λ e, String.eqb (id (instance e)) i) editors.

Definition onRemoveSuccessHandler (editor : MetadataEditor) (c : Component) : Component :=
  let editors := default [] (editors (state c)) in
  let clone := Js.slice 0 editors in
  let clone := Js.splice (Js.indexOf strictEquals editor editors) 1 [] clone in
  setState [Editors clone] c.

Definition onRemove (i : string) (c : Component) : Component :=
  match getEditor i c with
  | None => c
  | Some editor =>
      call (deleteMetadata false (file (props c)) (template editor)
              (removeSuccess editor) errorCallbackRef) c
  end.

Definition onAddSuccessHandler (editor : MetadataEditor) (c : Component) : Component :=
  let editors := default [] (editors (state c)) in
  let clone := Js.slice 0 editors in
  let clone := Js.push editor clone in
  setState [Editors clone; IsLoading false] c.

Definition onAdd (t : MetadataEditorTemplate) (c : Component) : Component :=
  let c := setState [IsLoading true] c in
  call (createMetadata false (file (props c)) t addSuccess errorCallbackRef) c.

Definition onSaveSuccessHandler (oldEditor newEditor : MetadataEditor)
    (c : Component) : Component :=
  let editors := default [] (editors (state c)) in
  let clone := Js.slice 0 editors in
  let clone := Js.splice (Js.indexOf strictEquals oldEditor editors) 1 [newEditor] clone in
  setState [Editors clone] c.

Definition onSave (i : string) (ops : JsonPatchData) (c : Component) : Component :=
  match getEditor i c with
  | None => c
  | Some oldEditor =>
      call (updateMetadata false (file (props c)) (template oldEditor) ops
              (saveSuccess oldEditor) errorCallbackRef) c
  end.

Definition onModification (i : string) (dirty : bool) (c : Component) : Component :=
  let editors := default [] (editors (state c)) in
  let index := Js.findIndex (λ e, String.eqb (id (instance e)) i) editors in
  if (index =? -1)%Z then c
  else
    match Js.get index editors with
    | None => c  (* not reached: [index] is a position of [editors] *)
    | Some found =>
        let '(editor, c) := spread found c in
        let editor := set_isDirty dirty editor in
        let clone := Js.slice 0 editors in
        let clone := Js.splice index 1 [editor] clone in
        setState [Editors clone] c
    end.

(** Run a continuation with what the API passes to it.  A continuation
    ignores arguments it does not name; one that destructures an argument
    it did not get is not modelled (the component is left as it is). *)
Definition invoke (k : Callback) (arg : Payload) (c : Component) : Component :=
  match k, arg with
  | getEditorsSuccess, editorsAndTemplates es ts => getEditorsSuccessHandler es ts c
  | errorCallbackRef, _ => errorCallback c
  | removeSuccess editor, _ => onRemoveSuccessHandler editor c
  | addSuccess, oneEditor e => onAddSuccessHandler e c
  | saveSuccess oldEditor, oneEditor e => onSaveSuccessHandler oldEditor e c
  | _, _ => c
  end.

(** ** [render] *)

Record TemplateDropdown := {
  hasTemplates : option bool;
  isDropdownBusy : bool;
  dropdownTemplates : option (list MetadataEditorTemplate);
  usedTemplates : option (list MetadataEditorTemplate)
}.

Inductive Content :=
| EmptyContent (canAdd : bool)
| Instances (es : list MetadataEditor).

Record LoadingIndicatorWrapper := {
  wrapperIsLoading : bool;
  children : Content
}.

(** The [SidebarContent] element: its [actions] prop and its three
    conditional children. *)
Record SidebarContent := {
  actions : option TemplateDropdown;
  inlineError : bool;
  loadingIndicator : bool;
  instanceEditor : option LoadingIndicatorWrapper
}.

(** [!!array] for an optional array: an array is an object. *)
Definition defined {A} (o : option A) : bool := bool_decide (is_Some o).

Definition render (c : Component) : SidebarContent :=
  let editors := editors (state c) in
  let templates := templates (state c) in
  let isLoading := isLoading (state c) in
  let hasError := hasError (state c) in
  let showEditor := defined templates && defined editors in
  let showLoadingIndicator := negb hasError && negb showEditor in
  let canEdit := canEdit c in
  let showTemplateDropdown := showEditor && canEdit in
  let showEmptyContent :=
    showEditor && (Js.length (default [] editors) =? 0)%Z in
  {| actions :=
       if showTemplateDropdown then
         Some {| hasTemplates := (λ ts : list MetadataEditorTemplate, negb (Js.length ts =? 0)%Z) <$> templates;
                 isDropdownBusy := false;
                 dropdownTemplates := templates;
                 usedTemplates := (λ es : list MetadataEditor, template <$> es) <$> editors |}
       else None;
     inlineError := hasError;
     loadingIndicator := showLoadingIndicator;
     instanceEditor :=
       if showEditor then
         Some {| wrapperIsLoading := isLoading;
                 children :=
                   if showEmptyContent then EmptyContent canEdit
                   else Instances (default [] editors) |}
       else None |}.

(** * Vocabulary of the properties *)

(** The first position that satisfies [p]. *)
Definition first_at {A} (p : A → bool) (l : list A) (i : nat) (x : A) : Prop :=
  l !! i = Some x ∧ p x = true ∧ ∀ j y, (j < i)%nat → l !! j = Some y → p y = false.

(** [const { editors = [] } = this.state] *)
Definition editorList (c : Component) : list MetadataEditor :=
  default [] (editors (state c)).

Definition editorIds (c : Component) : list string :=
  (λ e, id (instance e)) <$> editorList c.

(** Editor identities are unique within the store. *)
Definition uniqueIds (c : Component) : Prop := NoDup (editorIds c).

(** The store operations, with the arguments their handlers take. *)
Inductive StoreOp :=
| insert (editor : MetadataEditor)
| removeById (editor : MetadataEditor)
| replaceOne (oldEditor newEditor : MetadataEditor).

Definition applyOp (o : StoreOp) (c : Component) : Component :=
  match o with
  | insert editor => onAddSuccessHandler editor c
  | removeById editor => onRemoveSuccessHandler editor c
  | replaceOne oldEditor newEditor => onSaveSuccessHandler oldEditor newEditor c
  end.

(** The stores reached after each operation of a sequence. *)
Fixpoint trace (ops : list StoreOp) (c : Component) : list Component :=
  match ops with
  | [] => []
  | o :: ops' => applyOp o c :: trace ops' (applyOp o c)
  end.

(** Every operation of the sequence meets [pre] in the store it is applied to. *)
Fixpoint admissible (pre : StoreOp → Component → Prop)
    (ops : list StoreOp) (c : Component) : Prop :=
  match ops with
  | [] => True
  | o :: ops' => pre o c ∧ admissible pre ops' (applyOp o c)
  end.

(** Only an insertion has a precondition: the id is new. *)
Definition insertsFresh (o : StoreOp) (c : Component) : Prop :=
  match o with
  | insert editor => id (instance editor) ∉ editorIds c
  | _ => True
  end.

(** An insertion brings a new id; a replacement names an editor of the
    store and brings an editor with the same id or a new one. *)
Definition reconciles (o : StoreOp) (c : Component) : Prop :=
  match o with
  | insert editor => id (instance editor) ∉ editorIds c
  | removeById _ => True
  | replaceOne oldEditor newEditor =>
      oldEditor ∈ editorList c ∧
      (id (instance newEditor) = id (instance oldEditor) ∨
       id (instance newEditor) ∉ editorIds c)
  end.

(** Sample data. *)
Definition sampleEditor (a : nat) (i : string) (dirty : bool) : MetadataEditor :=
  {| address := a; instance := {| id := i; data := [] |};
     template := {| templateKey := "properties" |}; isDirty := dirty |}.

Definition sampleFile (v : Js.value) : BoxItem :=
  {| file_id := "f1"; permissions := Some {| can_upload := v |} |}.

Definition sampleProps (v : Js.value) : Props :=
  {| file := sampleFile v; getMetadata := None; isFeatureEnabled := None |}.

(** A loaded component that can edit, with the given editors and templates. *)
Definition loaded (es : list MetadataEditor) (ts : list MetadataEditorTemplate)
    : Component :=
  {| props := sampleProps (Js.Bool true);
     state := {| editors := Some es; templates := Some ts;
                 isLoading := false; hasError := false |};
     heap_next := 100; calls := [] |}.

(** The copy [onModification] publishes for the editor [e]. *)
Definition dirtyCopy (dirty : bool) (e : MetadataEditor) (c : Component)
    : MetadataEditor :=
  {| address := heap_next c; instance := instance e;
     template := template e; isDirty := dirty |}.

(** Settle a decidable proposition about concrete data by evaluation. *)
Ltac decide_by_computation :=
  apply (bool_decide_unpack _); vm_compute; exact I.
Ltac refute_by_computation :=
  let H := fresh in
  intros H; apply (bool_decide_pack _) in H; vm_compute in H; exact H.

#[global] Instance uniqueIds_dec (c : Component) : Decision (uniqueIds c).
Proof. unfold uniqueIds. apply _. Defined.

(** Two editors of a loaded store, a second object for the saved editor
    "1", and an editor that comes back from a save with the id "2". *)
Definition editor1 : MetadataEditor := sampleEditor 1 "1" false.
Definition editor2 : MetadataEditor := sampleEditor 2 "2" false.
Definition saved1 : MetadataEditor := sampleEditor 3 "1" false.
Definition saved1' : MetadataEditor := sampleEditor 4 "1" false.
Definition other2 : MetadataEditor := sampleEditor 5 "2" false.
Definition editor3 : MetadataEditor := sampleEditor 6 "3" false.

(** ** Events

    What can happen to a mounted component: it mounts, the user acts on the
    rendered controls, or the API runs one of the continuations.  Any
    continuation with any argument is allowed, issued or not, so that what
    holds for every event holds for every interleaving of completions. *)
Inductive Event :=
| didMount
| userAdd (t : MetadataEditorTemplate)
| userSave (i : string) (ops : JsonPatchData)
| userRemove (i : string)
| userModify (i : string) (dirty : bool)
| completes (k : Callback) (arg : Payload).

Definition step (c : Component) (ev : Event) : Component :=
  match ev with
  | didMount => componentDidMount c
  | userAdd t => onAdd t c
  | userSave i ops => onSave i ops c
  | userRemove i => onRemove i c
  | userModify i dirty => onModification i dirty c
  | completes k arg => invoke k arg c
  end.

Definition run (evs : list Event) (c : Component) : Component :=
  foldl step c evs.

(** The list call has succeeded: both arrays are defined. *)
Definition isLoaded (c : Component) : Prop :=
  is_Some (editors (state c)) ∧ is_Some (templates (state c)).

(** The one event that runs the success continuation of the list call. *)
Definition isListSuccess (ev : Event) : Prop :=
  match ev with
  | completes getEditorsSuccess (editorsAndTemplates _ _) => True
  | _ => False
  end.

(** What [render] puts in the editor area for a loaded list of editors. *)
Definition editorArea (busy canAdd : bool) (es : list MetadataEditor)
    : LoadingIndicatorWrapper :=
  {| wrapperIsLoading := busy;
     children := match es with [] => EmptyContent canAdd | _ => Instances es end |}.

(** Every editor of the store was allocated before the next free address. *)
Definition allocated (c : Component) : Prop :=
  Forall (λ e, address e < heap_next c) (editorList c).

(** * Properties *)

(** ** Arrays *)

Section ArrayFacts.
Context {A : Type}.
Implicit Types (l items : list A) (p : A → bool) (x : A).
Local Open Scope Z_scope.

Lemma slice_0 l : Js.slice 0 l = l.
Proof.
  unfold Js.slice, Js.relative, Js.length. simpl.
  replace (Z.to_nat (0 `min` Z.of_nat (length l))) with 0%nat by lia.
  reflexivity.
Qed.

(** [splice(i, 1, x)] at a position of the array overwrites it. *)
Lemma splice_replace (i : nat) x l :
  (i < length l)%nat → Js.splice (Z.of_nat i) 1 [x] l = <[i:=x]> l.
Proof.
  intros Hi. unfold Js.splice, Js.relative, Js.length.
  destruct (Z.ltb_spec (Z.of_nat i) 0) as [?|_]; [lia|].
  rewrite insert_take_drop by done.
  replace (Z.to_nat (Z.of_nat i `min` Z.of_nat (length l))) with i by lia.
  replace (Z.to_nat (_ + _)) with (S i) by lia.
  reflexivity.
Qed.

(** [splice(i, 1)] at a position of the array deletes it. *)
Lemma splice_delete (i : nat) l :
  (i < length l)%nat → Js.splice (Z.of_nat i) 1 [] l = delete i l.
Proof.
  intros Hi. unfold Js.splice, Js.relative, Js.length.
  destruct (Z.ltb_spec (Z.of_nat i) 0) as [?|_]; [lia|].
  rewrite delete_take_drop.
  replace (Z.to_nat (Z.of_nat i `min` Z.of_nat (length l))) with i by lia.
  replace (Z.to_nat (_ + _)) with (S i) by lia.
  reflexivity.
Qed.

(** [splice(-1, 1, ...items)] works on the last element, whichever it is. *)
Lemma splice_minus_1 items l :
  Js.splice (-1) 1 items l = take (length l - 1)%nat l ++ items.
Proof.
  unfold Js.splice, Js.relative, Js.length. simpl.
  replace (Z.to_nat ((Z.of_nat (length l) + -1) `max` 0)) with (length l - 1)%nat by lia.
  rewrite (drop_ge l) by lia. by rewrite app_nil_r.
Qed.

(** Whatever the start, [splice(start, n)] only takes elements away. *)
Lemma splice_sublist start n l : Js.splice start n [] l `sublist_of` l.
Proof.
  unfold Js.splice. rewrite app_nil_l.
  set (a := Z.to_nat (Js.relative (Js.length l) start)).
  set (b := Z.to_nat (_ + _)).
  assert (a ≤ b)%nat as Hab.
  { subst a b. unfold Js.relative, Js.length.
    destruct (Z.ltb_spec start 0); lia. }
  rewrite <- (take_drop a l) at 3.
  apply sublist_app; [done|].
  replace b with (a + (b - a))%nat by lia.
  rewrite <- drop_drop. apply sublist_drop.
Qed.

Lemma findIndexFrom_absent k p l :
  0 ≤ k → (Js.findIndexFrom k p l = -1 ↔ Forall (λ x, p x = false) l).
Proof.
  revert k. induction l as [|x l IH]; intros k Hk; simpl.
  - split; [constructor|done].
  - destruct (p x) eqn:E.
    + split; [lia|]. inversion 1; congruence.
    + rewrite IH by lia. split; [by constructor|by inversion 1].
Qed.

Lemma findIndexFrom_found k p l :
  Js.findIndexFrom k p l ≠ -1 → 0 ≤ k →
  ∃ (i : nat) x, Js.findIndexFrom k p l = k + Z.of_nat i ∧ first_at p l i x.
Proof.
  revert k. induction l as [|x l IH]; intros k Hne Hk; simpl in *; [done|].
  destruct (p x) eqn:E.
  - exists 0%nat, x. split; [lia|]. split; [done|]. split; [done|]. lia.
  - destruct (IH (k + 1)) as (i & y & Hi & Hy & Hp & Hlt); [done|lia|].
    exists (S i), y. split; [lia|]. split; [done|]. split; [done|].
    intros [|j] z Hj Hz; simpl in Hz; [congruence|].
    eapply Hlt; [|done]. lia.
Qed.

Lemma first_at_unique p l i x j y : first_at p l i x → first_at p l j y → i = j ∧ x = y.
Proof.
  intros (Hi & Hp & Hlt) (Hj & Hq & Hlt').
  assert (i = j) as ->.
  { destruct (Nat.lt_trichotomy i j) as [?|[?|?]]; [|done|].
    - specialize (Hlt' _ _ H Hi). congruence.
    - specialize (Hlt _ _ H Hj). congruence. }
  split; [done|congruence].
Qed.

Lemma findIndex_absent p l : Js.findIndex p l = -1 ↔ Forall (λ x, p x = false) l.
Proof. by apply findIndexFrom_absent. Qed.

Lemma findIndex_found p l :
  Js.findIndex p l ≠ -1 →
  ∃ (i : nat) x, Js.findIndex p l = Z.of_nat i ∧ first_at p l i x.
Proof.
  intros H. destruct (findIndexFrom_found 0 p l) as (i & x & E & F); [done..|].
  exists i, x. split; [|done]. unfold Js.findIndex. lia.
Qed.

Lemma findIndex_first p l i x : first_at p l i x → Js.findIndex p l = Z.of_nat i.
Proof.
  intros F. destruct (decide (Js.findIndex p l = -1)) as [E|E].
  - apply findIndex_absent in E. destruct F as (Hi & Hp & _).
    rewrite Forall_lookup in E. specialize (E _ _ Hi). simpl in E. congruence.
  - destruct (findIndex_found _ _ E) as (j & y & -> & F').
    by destruct (first_at_unique _ _ _ _ _ _ F F') as [-> _].
Qed.

Lemma find_findIndex p l :
  Js.find p l = None ↔ Js.findIndex p l = -1.
Proof.
  rewrite findIndex_absent. induction l as [|x l IH]; simpl.
  - split; [constructor|done].
  - destruct (p x) eqn:E.
    + split; [done|]. inversion 1; congruence.
    + rewrite IH. split; [by constructor|by inversion 1].
Qed.

Lemma first_at_lt p l i x : first_at p l i x → (i < length l)%nat.
Proof. intros [H _]. by eapply lookup_lt_Some. Qed.

Lemma get_nat (i : nat) l : Js.get (Z.of_nat i) l = l !! i.
Proof.
  unfold Js.get. destruct (Z.ltb_spec (Z.of_nat i) 0); [lia|].
  by rewrite Nat2Z.id.
Qed.
End ArrayFacts.

(** ** The editor store *)

Section StoreFacts.
Implicit Types (c : Component) (l : list MetadataEditor) (e : MetadataEditor).

Lemma strictEquals_true a b : strictEquals a b = true ↔ a = b.
Proof. unfold strictEquals. by rewrite bool_decide_eq_true. Qed.

Lemma indexOf_absent e l : Js.indexOf strictEquals e l = (-1)%Z ↔ e ∉ l.
Proof.
  unfold Js.indexOf. rewrite findIndex_absent, Forall_forall. split.
  - intros H Hin. specialize (H _ Hin). simpl in H.
    by apply bool_decide_eq_false in H.
  - intros H x Hx. apply bool_decide_eq_false. by intros ->.
Qed.

(** [indexOf] returns the first position that holds the object. *)
Lemma indexOf_present e l :
  e ∈ l →
  ∃ i : nat, Js.indexOf strictEquals e l = Z.of_nat i ∧ l !! i = Some e ∧
             ∀ j, j < i → l !! j ≠ Some e.
Proof.
  intros Hin.
  destruct (findIndex_found (λ y, strictEquals y e) l) as (i & x & E & Hi & Hx & Hlt).
  { fold (Js.indexOf strictEquals e l). rewrite indexOf_absent. tauto. }
  apply strictEquals_true in Hx as ->.
  exists i. split; [done|]. split; [done|].
  intros j Hj Hl. specialize (Hlt _ _ Hj Hl).
  by rewrite (proj2 (strictEquals_true e e)) in Hlt.
Qed.

Lemma onRemoveSuccessHandler_editors e c :
  editors (state (onRemoveSuccessHandler e c)) =
    Some (Js.splice (Js.indexOf strictEquals e (editorList c)) 1 [] (editorList c)).
Proof. unfold onRemoveSuccessHandler. simpl. by rewrite slice_0. Qed.

Lemma onSaveSuccessHandler_editors e e' c :
  editors (state (onSaveSuccessHandler e e' c)) =
    Some (Js.splice (Js.indexOf strictEquals e (editorList c)) 1 [e'] (editorList c)).
Proof. unfold onSaveSuccessHandler. simpl. by rewrite slice_0. Qed.

Lemma onAddSuccessHandler_editors e c :
  editors (state (onAddSuccessHandler e c)) = Some (editorList c ++ [e]).
Proof. unfold onAddSuccessHandler. simpl. by rewrite slice_0. Qed.

(** In place of an editor of the store, [onSaveSuccessHandler] writes the
    new one. *)
Lemma onSaveSuccessHandler_present e e' c :
  e ∈ editorList c →
  ∃ i : nat, editorList c !! i = Some e ∧
    (∀ j, j < i → editorList c !! j ≠ Some e) ∧
    editorList (onSaveSuccessHandler e e' c) = <[i:=e']> (editorList c).
Proof.
  intros Hin. destruct (indexOf_present _ _ Hin) as (i & E & Hi & Hlt).
  exists i. split; [done|]. split; [done|].
  unfold editorList at 1. rewrite onSaveSuccessHandler_editors, E. simpl.
  apply splice_replace. by eapply lookup_lt_Some.
Qed.

Lemma NoDup_insert_ids (ids : list string) i x :
  NoDup ids → (ids !! i = Some x ∨ x ∉ ids) → NoDup (<[i:=x]> ids).
Proof.
  intros Hnd [Hi|Hx]; [by rewrite list_insert_id|].
  destruct (decide (i < length ids)) as [Hlt|Hge].
  - rewrite insert_take_drop by done.
    rewrite <- (take_drop i ids) in Hnd, Hx.
    apply NoDup_app in Hnd as (Ht & Hdisj & Hd).
    rewrite not_elem_of_app in Hx. destruct Hx as [Hx1 Hx2].
    assert (drop (S i) ids `sublist_of` drop i ids) as Hsub.
    { replace (S i) with (i + 1) by lia. rewrite <- drop_drop. apply sublist_drop. }
    apply NoDup_app. split; [done|]. split.
    + intros y Hy. rewrite not_elem_of_cons. split; [by intros ->|].
      intros Hy'. eapply Hdisj; [done|]. by eapply elem_of_sublist.
    + apply NoDup_cons. split.
      * intros Hx'. apply Hx2. by eapply elem_of_sublist.
      * by eapply sublist_NoDup.
  - rewrite list_insert_ge by lia. done.
Qed.

Lemma applyOp_uniqueIds o c : uniqueIds c → reconciles o c → uniqueIds (applyOp o c).
Proof.
  unfold uniqueIds, editorIds. intros Hnd Hpre.
  destruct o as [e|e|e e']; simpl in *.
  - unfold editorList at 1. rewrite onAddSuccessHandler_editors. simpl.
    rewrite fmap_app. apply NoDup_app. split; [done|]. split.
    + intros x Hx. simpl. rewrite list_elem_of_singleton. by intros ->.
    + apply NoDup_singleton.
  - unfold editorList at 1. rewrite onRemoveSuccessHandler_editors. simpl.
    eapply sublist_NoDup; [done|]. apply fmap_sublist, splice_sublist.
  - destruct Hpre as [Hin Hid].
    destruct (onSaveSuccessHandler_present e e' c Hin) as (i & Hi & _ & ->).
    rewrite list_fmap_insert. apply NoDup_insert_ids; [done|].
    destruct Hid as [->|?]; [left|by right].
    by rewrite list_lookup_fmap, Hi.
Qed.
End StoreFacts.

(** C1, as amended.  Starting from a store with unique editor identities,
    after every step of a sequence of [insert] (add success), [removeById]
    (remove success) and [replaceOne] (save success) the identities are
    still unique, provided each inserted editor brings an id that is not in
    the store, and each replacement names an editor that is in the store
    and brings an editor with the same id (or with an id that is not in the
    store). *)
Theorem store_operations_keep_ids_unique (ops : list StoreOp) (c : Component) :
  uniqueIds c → admissible reconciles ops c → Forall uniqueIds (trace ops c).
Proof.
  revert c. induction ops as [|o ops IH]; intros c Hnd Hadm; simpl.
  - constructor.
  - destruct Hadm as [Hpre Hadm].
    pose proof (applyOp_uniqueIds o c Hnd Hpre) as Hnd'.
    constructor; [done|]. by apply IH.
Qed.

Lemma store_operations_keep_ids_unique_witness :
  let c := loaded [editor1; editor2] [] in
  let ops := [insert editor3; replaceOne editor1 saved1; removeById editor2] in
  uniqueIds c ∧ admissible reconciles ops c ∧ Forall uniqueIds (trace ops c).
Proof.
  intros c ops.
  assert (uniqueIds c) as Hu by (decide_by_computation).
  assert (admissible reconciles ops c) as Ha.
  { simpl. split; [decide_by_computation|].
    split; [|done]. split; [|by left].
    decide_by_computation. }
  split; [exact Hu|]. split; [exact Ha|].
  exact (store_operations_keep_ids_unique ops c Hu Ha).
Defined.

(** C1, as stated, fails.  With a precondition on insertions only, a
    replacement can bring an id that another editor of the store has; and a
    replacement that names an editor no longer in the store (here: the same
    save completing twice) overwrites the last editor. *)
Lemma replaceOne_can_duplicate_ids :
  let c := loaded [editor1; editor2] [] in
  let ops := [replaceOne editor1 other2] in
  let ops' := [replaceOne editor1 saved1; replaceOne editor1 saved1'] in
  (uniqueIds c ∧ admissible insertsFresh ops c ∧ ¬ Forall uniqueIds (trace ops c)) ∧
  (uniqueIds c ∧ admissible insertsFresh ops' c ∧ ¬ Forall uniqueIds (trace ops' c)) ∧
  editorIds (applyOp (replaceOne editor1 other2) c) = ["2"; "2"] ∧
  editorList (applyOp (replaceOne editor1 saved1')
                (applyOp (replaceOne editor1 saved1) c)) = [saved1; saved1'].
Proof.
  intros c ops ops'.
  assert (uniqueIds c) as Hu by (decide_by_computation).
  split; [|split; [|split]].
  - split; [done|]. split; [by simpl|].
    refute_by_computation.
  - split; [done|]. split; [by simpl|].
    refute_by_computation.
  - reflexivity.
  - reflexivity.
Qed.

(** ** Resolving an editor by id *)

Section Resolution.
Implicit Types (c : Component) (i : string).

Lemma getEditor_None i c : getEditor i c = None ↔ i ∉ editorIds c.
Proof.
  unfold getEditor, editorIds. fold (editorList c).
  rewrite find_findIndex, findIndex_absent, Forall_forall, list_elem_of_fmap.
  split.
  - intros H (e & -> & He). specialize (H _ He). simpl in H.
    by rewrite String.eqb_refl in H.
  - intros H e He. apply String.eqb_neq. intros <-. apply H. by exists e.
Qed.

Lemma getEditor_Some i c e :
  getEditor i c = Some e → e ∈ editorList c ∧ id (instance e) = i.
Proof.
  unfold getEditor. fold (editorList c).
  induction (editorList c) as [|x l IH]; simpl; [done|].
  destruct (String.eqb_spec (id (instance x)) i) as [E|E].
  - intros [= ->]. split; [left|done].
  - intros H. destruct (IH H). split; [by right|done].
Qed.
End Resolution.

(** ** Remove *)

(** When the editor is in the store, the remove-success handler deletes its
    first occurrence and nothing else. *)
Lemma onRemoveSuccessHandler_present (e : MetadataEditor) (c : Component) :
  e ∈ editorList c →
  ∃ i : nat, editorList c !! i = Some e ∧
    (∀ j, j < i → editorList c !! j ≠ Some e) ∧
    editorList (onRemoveSuccessHandler e c) = delete i (editorList c).
Proof.
  intros Hin. destruct (indexOf_present _ _ Hin) as (i & E & Hi & Hlt).
  exists i. split; [done|]. split; [done|].
  unfold editorList at 1. rewrite onRemoveSuccessHandler_editors, E. simpl.
  apply splice_delete. by eapply lookup_lt_Some.
Qed.

(** When it is not, [indexOf] gives [-1] and [splice(-1, 1)] deletes the
    last editor of the store. *)
Lemma onRemoveSuccessHandler_absent (e : MetadataEditor) (c : Component) :
  e ∉ editorList c →
  editorList (onRemoveSuccessHandler e c)
    = take (length (editorList c) - 1) (editorList c).
Proof.
  intros Hin. apply indexOf_absent in Hin.
  unfold editorList at 1. rewrite onRemoveSuccessHandler_editors, Hin. simpl.
  rewrite splice_minus_1. by rewrite app_nil_r.
Qed.

(** C2.  The remove-success handler is not a no-op for an editor that is no
    longer in the store.  On the store [[{id:"1"},{id:"2"}]], two removals
    of "2" are issued before either completes.  The first completion leaves
    [[{id:"1"}]]; the second one, whose editor is not in the store any
    more, deletes the editor "1".  Likewise a removal of "1" that completes
    after the editor "1" was copied by [onModification] deletes the editor
    "2" and leaves the copy of "1". *)
Theorem remove_success_of_absent_editor_deletes_last :
  let c := loaded [editor1; editor2] [] in
  let del := deleteMetadata false (file (props c)) (template editor2)
               (removeSuccess editor2) errorCallbackRef in
  let issued := onRemove "2" (onRemove "2" c) in
  let once := invoke (removeSuccess editor2) nothing issued in
  let twice := invoke (removeSuccess editor2) nothing once in
  let stale :=
    invoke (removeSuccess editor1) nothing (onModification "1" true (onRemove "1" c)) in
  calls issued = [del; del] ∧
  editorList once = [editor1] ∧
  getEditor "2" once = None ∧
  editorList twice = [] ∧
  editorIds stale = ["1"].
Proof. repeat split. Qed.

(** ** Save *)

(** C5.  [onSave] with an id that no editor of the store has changes
    nothing: the component is returned as it is, so no API call is logged,
    [hasError] is not set, and [editors], [templates], [isLoading] and
    [hasError] keep their values. *)
Theorem onSave_unknown_id_is_noop (i : string) (ops : JsonPatchData) (c : Component) :
  i ∉ editorIds c →
  onSave i ops c = c ∧
  calls (onSave i ops c) = calls c ∧
  state (onSave i ops c) = state c.
Proof.
  intros H. apply getEditor_None in H.
  assert (onSave i ops c = c) as -> by (unfold onSave; by rewrite H).
  done.
Qed.

Lemma onSave_unknown_id_is_noop_witness :
  let c := loaded [editor1; editor2] [] in
  let ops := [{| op := "replace"; path := "/status"; value := "done" |}] in
  ("7" ∉ editorIds c) ∧ onSave "7" ops c = c ∧
  calls (onSave "7" ops c) = calls c ∧ state (onSave "7" ops c) = state c.
Proof.
  intros c ops.
  assert ("7" ∉ editorIds c) as H by decide_by_computation.
  split; [exact H|]. exact (onSave_unknown_id_is_noop "7" ops c H).
Defined.

(** With an id of the store, [onSave] issues one [updateMetadata] call for
    the resolved editor and leaves the state alone. *)
Lemma onSave_known_id (i : string) (ops : JsonPatchData) (c : Component) e :
  getEditor i c = Some e →
  onSave i ops c =
    call (updateMetadata false (file (props c)) (template e) ops
            (saveSuccess e) errorCallbackRef) c.
Proof. intros H. unfold onSave. by rewrite H. Qed.

(** C6.  When the old editor is in the store, the save-success handler
    writes the new editor at the position of (the first occurrence of) the
    old one: the list keeps its length, every other position keeps its
    editor, and nothing else of the component changes. *)
Theorem onSaveSuccessHandler_replaces_in_place
    (oldEditor newEditor : MetadataEditor) (c : Component) :
  oldEditor ∈ editorList c →
  let c' := onSaveSuccessHandler oldEditor newEditor c in
  ∃ i : nat,
    editorList c !! i = Some oldEditor ∧
    (∀ j, j < i → editorList c !! j ≠ Some oldEditor) ∧
    editors (state c') = Some (<[i:=newEditor]> (editorList c)) ∧
    editorList c' !! i = Some newEditor ∧
    (∀ j, j ≠ i → editorList c' !! j = editorList c !! j) ∧
    length (editorList c') = length (editorList c) ∧
    templates (state c') = templates (state c) ∧
    isLoading (state c') = isLoading (state c) ∧
    hasError (state c') = hasError (state c) ∧
    props c' = props c ∧ calls c' = calls c ∧ heap_next c' = heap_next c.
Proof.
  intros Hin c'.
  destruct (onSaveSuccessHandler_present oldEditor newEditor c Hin) as (i & Hi & Hlt & E).
  fold c' in E. exists i.
  split; [done|]. split; [done|]. split.
  { subst c'. rewrite onSaveSuccessHandler_editors.
    destruct (indexOf_present _ _ Hin) as (k & Ek & Hk & Hltk). rewrite Ek.
    assert (k = i) as ->.
    { destruct (Nat.lt_trichotomy k i) as [?|[?|?]]; [|done|].
      - by specialize (Hlt _ H).
      - by specialize (Hltk _ H). }
    f_equal. apply splice_replace. by eapply lookup_lt_Some. }
  rewrite E. split.
  { apply list_lookup_insert_eq. by eapply lookup_lt_Some. }
  split; [intros j Hj; by apply list_lookup_insert_ne|].
  split; [apply length_insert|].
  done.
Qed.

Lemma onSaveSuccessHandler_replaces_in_place_witness :
  let c := loaded [editor1; editor2; editor3] [] in
  editor2 ∈ editorList c ∧
  editors (state (onSaveSuccessHandler editor2 other2 c))
    = Some [editor1; other2; editor3].
Proof.
  intros c.
  assert (editor2 ∈ editorList c) as H by decide_by_computation.
  split; [exact H|].
  destruct (onSaveSuccessHandler_replaces_in_place editor2 other2 c H)
    as (i & Hi & _ & E & _).
  destruct i as [|[|[|i]]]; vm_compute in Hi; try discriminate Hi.
  exact E.
Defined.

(** ** Add and list failures *)

(** C3, as stated, fails: after [onAdd] and the failure of its
    [createMetadata] call, [isLoading] is not left true. *)
Lemma add_failure_does_not_leave_isLoading :
  let c := loaded [editor1] [{| templateKey := "properties" |}] in
  let t := {| templateKey := "properties" |} in
  let issued := onAdd t c in
  let failed := invoke errorCallbackRef nothing issued in
  isLoading (state issued) = true ∧
  calls issued = [createMetadata false (file (props c)) t addSuccess errorCallbackRef] ∧
  hasError (state failed) = true ∧
  isLoading (state failed) ≠ true.
Proof. repeat split. simpl. discriminate. Qed.

(** C3, as amended.  [onAdd] sets [isLoading] and issues [createMetadata]
    with [errorCallback] as its failure continuation; when the call fails,
    the store has [hasError = true] and [isLoading = false], and its
    editors and templates are untouched. *)
Theorem add_failure_sets_error_and_clears_isLoading
    (t : MetadataEditorTemplate) (arg : Payload) (c : Component) :
  let issued := onAdd t c in
  let failed := invoke errorCallbackRef arg issued in
  isLoading (state issued) = true ∧
  calls issued
    = calls c ++ [createMetadata false (file (props c)) t addSuccess errorCallbackRef] ∧
  hasError (state failed) = true ∧
  isLoading (state failed) = false ∧
  editors (state failed) = editors (state c) ∧
  templates (state failed) = templates (state c).
Proof. repeat split. Qed.

(** C4.  The component issues its list call when it mounts, with
    [errorCallback] as the failure continuation.  When that call fails the
    state has [isLoading = false] and [hasError = true], and [render] shows
    the error banner only: no loading indicator, no editor list (and no
    template dropdown). *)
Theorem list_failure_shows_only_the_error (p : Props) (heap : nat) (arg : Payload) :
  let mounted := componentDidMount (construct p heap) in
  let failed := invoke errorCallbackRef arg mounted in
  calls mounted
    = [getEditors true (file p) getEditorsSuccess errorCallbackRef
         (getMetadata p) (default true (isFeatureEnabled p))] ∧
  isLoading (state failed) = false ∧
  hasError (state failed) = true ∧
  render failed
    = {| actions := None; inlineError := true;
         loadingIndicator := false; instanceEditor := None |}.
Proof. repeat split. Qed.

(** While the list call is pending, [render] shows the loading indicator
    only. *)
Lemma pending_list_shows_the_loading_indicator (p : Props) (heap : nat) :
  render (componentDidMount (construct p heap))
    = {| actions := None; inlineError := false;
         loadingIndicator := true; instanceEditor := None |}.
Proof. reflexivity. Qed.

(** ** Dirty tracking *)

Section Modification.
Implicit Types (c : Component) (i : string).

Lemma onModification_absent i dirty c :
  i ∉ editorIds c → onModification i dirty c = c.
Proof.
  intros H. apply getEditor_None in H. unfold getEditor in H.
  apply find_findIndex in H. unfold onModification. by rewrite H.
Qed.

Lemma onModification_present i dirty c (k : nat) e :
  first_at (λ e, String.eqb (id (instance e)) i) (editorList c) k e →
  onModification i dirty c =
    {| props := props c;
       state := assign (state c) (Editors (<[k:=dirtyCopy dirty e c]> (editorList c)));
       heap_next := S (heap_next c);
       calls := calls c |}.
Proof.
  intros F. pose proof (findIndex_first _ _ _ _ F) as E.
  pose proof (first_at_lt _ _ _ _ F) as Hlt. destruct F as (Hk & _ & _).
  unfold onModification. fold (editorList c). rewrite E.
  destruct (Z.eqb_spec (Z.of_nat k) (-1)) as [?|_]; [lia|].
  rewrite get_nat, Hk. simpl.
  rewrite slice_0, splice_replace by done. reflexivity.
Qed.

Lemma onModification_cases i c :
  (i ∉ editorIds c) ∨
  (∃ (k : nat) e, first_at (λ e, String.eqb (id (instance e)) i) (editorList c) k e).
Proof.
  destruct (decide (Js.findIndex (λ e, String.eqb (id (instance e)) i)
                      (editorList c) = (-1)%Z)) as [E|E].
  - left. apply getEditor_None. unfold getEditor. by apply find_findIndex.
  - right. destruct (findIndex_found _ _ E) as (k & e & _ & F). eauto.
Qed.
End Modification.

(** C9.  [onModification] is local: it never issues an API call and never
    touches the props, the templates or the loading and error flags.  With
    an id that no editor of the store has it returns the component as it
    is.  Otherwise, at the position of the first editor with that id it
    publishes a copy of that editor with the given [isDirty] and the same
    instance and template; every other position keeps its editor. *)
Theorem onModification_toggles_dirty_locally (i : string) (dirty : bool) (c : Component) :
  let c' := onModification i dirty c in
  calls c' = calls c ∧
  props c' = props c ∧
  templates (state c') = templates (state c) ∧
  isLoading (state c') = isLoading (state c) ∧
  hasError (state c') = hasError (state c) ∧
  (i ∉ editorIds c → c' = c) ∧
  (∀ (k : nat) e,
     editorList c !! k = Some e →
     id (instance e) = i →
     (∀ j e', j < k → editorList c !! j = Some e' → id (instance e') ≠ i) →
     ∃ e',
       editorList c' = <[k:=e']> (editorList c) ∧
       isDirty e' = dirty ∧
       instance e' = instance e ∧
       template e' = template e).
Proof.
  intros c'. subst c'.
  destruct (onModification_cases i c) as [H|(k & e & F)].
  - rewrite (onModification_absent _ _ _ H).
    repeat (split; [done|]).
    intros k e Hk <- _. exfalso. apply H. unfold editorIds.
    apply list_elem_of_fmap. exists e. split; [done|]. by eapply list_elem_of_lookup_2.
  - rewrite (onModification_present _ _ _ _ _ F). simpl.
    repeat (split; [done|]). split.
    + intros H. exfalso. destruct F as (Hk & Hp & _).
      apply String.eqb_eq in Hp. apply H. unfold editorIds.
      apply list_elem_of_fmap. exists e. split; [done|]. by eapply list_elem_of_lookup_2.
    + intros k' e' Hk' Hid Hfirst.
      assert (first_at (λ e, String.eqb (id (instance e)) i) (editorList c) k' e') as F'.
      { split; [done|]. split; [by apply String.eqb_eq|].
        intros j y Hj Hy. apply String.eqb_neq. by eapply Hfirst. }
      destruct (first_at_unique _ _ _ _ _ _ F F') as [-> ->].
      exists (dirtyCopy dirty e' c). done.
Qed.

(** [setDirty("1", true)] on the store [[{id:"1", isDirty:false}]]. *)
Lemma onModification_toggles_dirty_locally_witness :
  let c := loaded [editor1] [] in
  let c' := onModification "1" true c in
  ("9" ∉ editorIds c) ∧ onModification "9" true c = c ∧
  editorList c !! 0 = Some editor1 ∧
  id (instance editor1) = "1" ∧
  calls c' = calls c ∧
  ∃ e', editorList c' = [e'] ∧ isDirty e' = true ∧
        instance e' = instance editor1 ∧ template e' = template editor1.
Proof.
  intros c c'.
  assert ("9" ∉ editorIds c) as H9 by decide_by_computation.
  destruct (onModification_toggles_dirty_locally "9" true c)
    as (_ & _ & _ & _ & _ & Habsent & _).
  destruct (onModification_toggles_dirty_locally "1" true c)
    as (Hcalls & _ & _ & _ & _ & _ & Hpresent).
  split; [exact H9|]. split; [exact (Habsent H9)|].
  split; [reflexivity|]. split; [reflexivity|]. split; [exact Hcalls|].
  refine (Hpresent 0 editor1 eq_refl eq_refl _).
  intros j e' Hj. lia.
Defined.

Example onModification_example :
  editorList (onModification "1" true (loaded [sampleEditor 1 "1" false] []))
    = [sampleEditor 100 "1" true].
Proof. reflexivity. Qed.

(** ** The view *)

(** C7.  With [editors = []], one template, [isLoading = false],
    [hasError = false] and edit permission, [render] shows the empty
    content with its add affordance inside the (idle) loading wrapper, next
    to the template dropdown; it shows neither the loading indicator, nor
    the error, nor the list of instances. *)
Theorem render_empty_store_offers_add (t1 : MetadataEditorTemplate) (c : Component) :
  editors (state c) = Some [] →
  templates (state c) = Some [t1] →
  isLoading (state c) = false →
  hasError (state c) = false →
  canEdit c = true →
  render c
    = {| actions := Some {| hasTemplates := Some true; isDropdownBusy := false;
                            dropdownTemplates := Some [t1];
                            usedTemplates := Some [] |};
         inlineError := false;
         loadingIndicator := false;
         instanceEditor := Some {| wrapperIsLoading := false;
                                   children := EmptyContent true |} |}.
Proof.
  intros He Ht Hl Herr Hc. unfold render. by rewrite He, Ht, Hl, Herr, Hc.
Qed.

Lemma render_empty_store_offers_add_witness :
  let t1 := {| templateKey := "properties" |} in
  let c := loaded [] [t1] in
  children <$> instanceEditor (render c) = Some (EmptyContent true) ∧
  loadingIndicator (render c) = false.
Proof.
  intros t1 c.
  rewrite (render_empty_store_offers_add t1 c eq_refl eq_refl eq_refl eq_refl eq_refl).
  split; reflexivity.
Defined.

(** C8, as stated, fails: with an empty list of templates (and of editors)
    and edit permission, the template dropdown is rendered, with
    [hasTemplates = false]. *)
Lemma dropdown_shown_without_templates :
  let c := loaded [] [] in
  templates (state c) = Some [] ∧
  canEdit c = true ∧
  actions (render c)
    = Some {| hasTemplates := Some false; isDropdownBusy := false;
              dropdownTemplates := Some []; usedTemplates := Some [] |} ∧
  actions (render c) ≠ None.
Proof. repeat split. discriminate. Qed.

(** C8, as amended.  The template dropdown is rendered if and only if the
    templates and the editors have both been loaded (each is a list,
    possibly empty) and the user can edit.  When it is rendered, its
    [hasTemplates] tells whether the list of templates is non-empty. *)
Theorem dropdown_shown_iff_loaded_and_canEdit (c : Component) :
  (is_Some (actions (render c)) ↔
     is_Some (templates (state c)) ∧ is_Some (editors (state c)) ∧ canEdit c = true) ∧
  (∀ d, actions (render c) = Some d →
     ∃ ts, templates (state c) = Some ts ∧
           hasTemplates d = Some (bool_decide (ts ≠ []))).
Proof.
  unfold render.
  destruct (templates (state c)) as [ts|], (editors (state c)) as [es|],
    (canEdit c); simpl; rewrite ?is_Some_alt.
  1: { split; [tauto|]. intros d [= <-]. exists ts. split; [done|].
       simpl. by destruct ts. }
  all: split; [split; [done|]; intros (? & ? & ?); done|]; intros d [=].
Qed.

Lemma dropdown_shown_iff_loaded_and_canEdit_witness :
  let c := loaded [editor1] [{| templateKey := "properties" |}] in
  is_Some (actions (render c)) ∧
  hasTemplates <$> actions (render c) = Some (Some true).
Proof.
  intros c.
  destruct (dropdown_shown_iff_loaded_and_canEdit c) as [[_ Hshown] Hhas].
  assert (is_Some (actions (render c))) as H.
  { apply Hshown. split; [by eexists|]. split; [by eexists|]. reflexivity. }
  split; [exact H|].
  destruct (Hhas _ eq_refl) as (ts & [= <-] & E).
  reflexivity.
Defined.

(** ** Permission *)

(** C10.  [canEdit] is true exactly when the file has a permissions object
    whose [can_upload] is truthy.  Without a permissions object, or with
    one that has no [can_upload], it is false; and whenever it is false,
    [render] shows no template dropdown and never offers the add
    affordance of the empty content. *)
Theorem canEdit_iff_can_upload_truthy (c : Component) :
  (canEdit c = true ↔
     ∃ p, permissions (file (props c)) = Some p ∧ Js.ToBoolean (can_upload p) = true) ∧
  (permissions (file (props c)) = None → canEdit c = false) ∧
  (∀ p, permissions (file (props c)) = Some p →
        can_upload p = Js.Undefined → canEdit c = false) ∧
  (canEdit c = false →
     actions (render c) = None ∧
     ∀ w, instanceEditor (render c) = Some w → children w ≠ EmptyContent true).
Proof.
  split; [|split; [|split]].
  - unfold canEdit. destruct (permissions (file (props c))) as [p|]; simpl.
    + split; [intros H; by exists p|]. by intros (? & [= <-] & ?).
    + split; [done|]. by intros (? & [=] & ?).
  - unfold canEdit. by intros ->.
  - unfold canEdit. intros p -> Hp. simpl. by rewrite Hp.
  - intros H. unfold render. cbv zeta. rewrite H, andb_false_r. split; [done|].
    intros w.
    destruct (defined (templates (state c)) && defined (editors (state c)));
      [|done].
    intros [= <-]. simpl. by destruct (Js.length _ =? 0)%Z.
Qed.

Lemma canEdit_iff_can_upload_truthy_witness :
  let noPermissions :=
    {| props := {| file := {| file_id := "f1"; permissions := None |};
                   getMetadata := None; isFeatureEnabled := None |};
       state := {| editors := Some []; templates := Some [{| templateKey := "properties" |}];
                   isLoading := false; hasError := false |};
       heap_next := 0; calls := [] |} in
  let noCanUpload := construct (sampleProps Js.Undefined) 0 in
  canEdit (loaded [] []) = true ∧
  canEdit noPermissions = false ∧
  canEdit noCanUpload = false ∧
  actions (render noPermissions) = None ∧
  instanceEditor (render noPermissions)
    = Some {| wrapperIsLoading := false; children := EmptyContent false |}.
Proof.
  intros noPermissions noCanUpload.
  destruct (canEdit_iff_can_upload_truthy (loaded [] [])) as ((_ & Htrue) & _).
  destruct (canEdit_iff_can_upload_truthy noPermissions) as (_ & Hnone & _ & Hview).
  destruct (canEdit_iff_can_upload_truthy noCanUpload) as (_ & _ & Hundef & _).
  split; [apply Htrue; by eexists|].
  split; [exact (Hnone eq_refl)|].
  split; [exact (Hundef _ eq_refl eq_refl)|].
  split; [exact (proj1 (Hview (Hnone eq_refl)))|].
  reflexivity.
Defined.

(** * Further properties of the component *)

(** ** More on arrays and resolution *)

Section MoreArrayFacts.
Context {A : Type}.
Implicit Types (l k : list A) (p : A → bool) (x : A).

Lemma find_app p l k :
  Js.find p (l ++ k) = match Js.find p l with Some x => Some x | None => Js.find p k end.
Proof. induction l as [|x l IH]; simpl; [done|]. by destruct (p x). Qed.

Lemma find_Some_first_at p l x :
  Js.find p l = Some x → ∃ i : nat, first_at p l i x.
Proof.
  induction l as [|y l IH]; simpl; [done|].
  destruct (p y) eqn:E.
  - intros [= ->]. exists 0. split; [done|]. split; [done|]. lia.
  - intros H. destruct (IH H) as (i & Hi & Hp & Hlt). exists (S i).
    split; [done|]. split; [done|].
    intros [|j] z Hj Hz; simpl in Hz; [congruence|]. eapply Hlt; [|done]. lia.
Qed.

Lemma first_at_find p l i x : first_at p l i x → Js.find p l = Some x.
Proof.
  revert i. induction l as [|y l IH]; intros i (Hi & Hp & Hlt); [done|].
  destruct i as [|i]; simpl in *.
  - injection Hi as ->. by rewrite Hp.
  - rewrite (Hlt 0 y) by (done || lia). apply (IH i).
    split; [done|]. split; [done|]. intros j z Hj Hz. apply (Hlt (S j)); [lia|done].
Qed.

(** [find] does not see entries that its predicate rejects. *)
Lemma find_insert_other p l (i : nat) x y :
  l !! i = Some y → p y = false → p x = false → Js.find p (<[i:=x]> l) = Js.find p l.
Proof.
  revert i. induction l as [|z l IH]; intros i Hi Hy Hx; [done|].
  destruct i as [|i]; simpl in *.
  - injection Hi as ->. by rewrite Hx, Hy.
  - destruct (p z); [done|]. by apply IH.
Qed.

Lemma find_delete_other p l (i : nat) y :
  l !! i = Some y → p y = false → Js.find p (delete i l) = Js.find p l.
Proof.
  revert i. induction l as [|z l IH]; intros i Hi Hy; [done|].
  destruct i as [|i]; simpl in *.
  - injection Hi as ->. by rewrite Hy.
  - destruct (p z); [done|]. by apply IH.
Qed.
End MoreArrayFacts.

Lemma filter_keeps_all {A} (P : A → Prop) `{∀ x, Decision (P x)} (l : list A) :
  Forall P l → filter P l = l.
Proof.
  induction 1 as [|x l Hx _ IH]; [done|].
  rewrite filter_cons_True by done. by rewrite IH.
Qed.

(** Deleting the one entry that carries a key is filtering the key out. *)
Lemma delete_unique_key (l : list MetadataEditor) (k : nat) (e : MetadataEditor) :
  NoDup ((λ x, id (instance x)) <$> l) →
  l !! k = Some e →
  delete k l = filter (λ x, id (instance x) ≠ id (instance e)) l.
Proof.
  revert k. induction l as [|y l IH]; intros k Hnd Hk; [done|].
  rewrite fmap_cons in Hnd. apply NoDup_cons in Hnd as [Hy Hnd].
  destruct k as [|k]; simpl in *.
  - injection Hk as ->. rewrite filter_cons_False by (intros H; by apply H).
    symmetry. apply filter_keeps_all. apply Forall_forall. intros x Hx Heq. apply Hy.
    rewrite <- Heq. apply list_elem_of_fmap. by exists x.
  - rewrite filter_cons_True.
    + f_equal. by apply IH.
    + intros Heq. apply Hy. rewrite Heq. apply list_elem_of_fmap.
      exists e. split; [done|]. by eapply list_elem_of_lookup_2.
Qed.

Lemma getEditor_first_at (i : string) (c : Component) (e : MetadataEditor) :
  getEditor i c = Some e ↔
  ∃ k : nat, first_at (λ e, String.eqb (id (instance e)) i) (editorList c) k e.
Proof.
  unfold getEditor. fold (editorList c). split.
  - apply find_Some_first_at.
  - intros (k & F). by eapply first_at_find.
Qed.

Lemma editorList_call (a : ApiCall) (c : Component) : editorList (call a c) = editorList c.
Proof. reflexivity. Qed.

(** ** List success *)


(** ** Add success *)

(** X2.  The add-success handler appends the new editor after the editors
    of the store, clears [isLoading] and leaves the templates and the error
    flag alone.  An editor that brings a new id is then resolved by that
    id, and every other id resolves as before. *)
Theorem add_success_appends_and_resolves (e : MetadataEditor) (c : Component) :
  let c' := invoke addSuccess (oneEditor e) c in
  editors (state c') = Some (editorList c ++ [e]) ∧
  isLoading (state c') = false ∧
  hasError (state c') = hasError (state c) ∧
  templates (state c') = templates (state c) ∧
  (id (instance e) ∉ editorIds c → getEditor (id (instance e)) c' = Some e) ∧
  (∀ i, i ≠ id (instance e) → getEditor i c' = getEditor i c).
Proof.
  simpl. split; [apply onAddSuccessHandler_editors|].
  split; [done|]. split; [done|]. split; [done|].
  assert (∀ i, getEditor i (onAddSuccessHandler e c) =
               match getEditor i c with
               | Some x => Some x
               | None => if String.eqb (id (instance e)) i then Some e else None
               end) as Hget.
  { intros i. unfold getEditor at 1. rewrite onAddSuccessHandler_editors. simpl.
    by rewrite find_app. }
  split.
  - intros H. apply getEditor_None in H. by rewrite Hget, H, String.eqb_refl.
  - intros i Hi. rewrite Hget. destruct (getEditor i c); [done|].
    by rewrite (proj2 (String.eqb_neq _ _)).
Qed.

Lemma add_success_appends_and_resolves_witness :
  let c := loaded [editor1; editor2] [] in
  let c' := invoke addSuccess (oneEditor editor3) c in
  ("3" ∉ editorIds c) ∧ getEditor "3" c' = Some editor3 ∧
  getEditor "2" c' = getEditor "2" c.
Proof.
  intros c c'.
  assert ("3" ∉ editorIds c) as H by decide_by_computation.
  destruct (add_success_appends_and_resolves editor3 c) as (_ & _ & _ & _ & Hnew & Hold).
  split; [exact H|]. split; [exact (Hnew H)|].
  apply Hold. discriminate.
Defined.

(** ** Remove, from the request to its completion *)

(** X3.  In a store with unique ids, removing an id of the store and
    letting the [deleteMetadata] call succeed takes away exactly the editor
    with that id: the other editors stay, in their order, the id no longer
    resolves, and every other id resolves as before. *)
Theorem remove_then_success_deletes_exactly (i : string) (e : MetadataEditor)
    (c : Component) :
  uniqueIds c →
  getEditor i c = Some e →
  let issued := onRemove i c in
  let c' := invoke (removeSuccess e) nothing issued in
  calls issued = calls c ++ [deleteMetadata false (file (props c)) (template e)
                               (removeSuccess e) errorCallbackRef] ∧
  editors (state c') = Some (filter (λ x, id (instance x) ≠ i) (editorList c)) ∧
  getEditor i c' = None ∧
  (∀ j, j ≠ i → getEditor j c' = getEditor j c).
Proof.
  intros Hu Hget issued c'.
  destruct (getEditor_Some _ _ _ Hget) as [Hin Hid].
  assert (issued = call (deleteMetadata false (file (props c)) (template e)
                           (removeSuccess e) errorCallbackRef) c) as Hissued.
  { subst issued. unfold onRemove. by rewrite Hget. }
  destruct (indexOf_present _ _ Hin) as (k & Hidx & Hk & _).
  assert (editors (state c') = Some (delete k (editorList c))) as Hdel.
  { subst c'. rewrite Hissued.
    change (invoke (removeSuccess e) nothing ?x) with (onRemoveSuccessHandler e x).
    rewrite onRemoveSuccessHandler_editors, editorList_call, Hidx.
    f_equal. apply splice_delete. by eapply lookup_lt_Some. }
  pose proof (delete_unique_key _ _ _ Hu Hk) as Hfilter. rewrite Hid in Hfilter.
  split; [by rewrite Hissued|]. split; [by rewrite Hdel, Hfilter|]. split.
  - apply getEditor_None. unfold editorIds, editorList. rewrite Hdel, Hfilter. simpl.
    rewrite list_elem_of_fmap. intros (x & -> & Hx).
    apply list_elem_of_filter in Hx as [Hx _]. by apply Hx.
  - intros j Hj. unfold getEditor at 1. rewrite Hdel. simpl.
    apply find_delete_other with (y := e); [done|].
    apply String.eqb_neq. congruence.
Qed.

Lemma remove_then_success_deletes_exactly_witness :
  let c := loaded [editor1; editor2; editor3] [] in
  let c' := invoke (removeSuccess editor2) nothing (onRemove "2" c) in
  uniqueIds c ∧ getEditor "2" c = Some editor2 ∧
  editors (state c') = Some [editor1; editor3] ∧ getEditor "2" c' = None.
Proof.
  intros c c'.
  assert (uniqueIds c) as Hu by decide_by_computation.
  destruct (remove_then_success_deletes_exactly "2" editor2 c Hu eq_refl)
    as (_ & Heds & Hgone & _).
  split; [exact Hu|]. split; [reflexivity|]. split; [exact Heds|exact Hgone].
Defined.

(** ** Requests *)

(** X4.  [onSave] and [onRemove] never touch the state: nothing is updated
    before the API answers.  For an id of the store each logs exactly one
    call, for the first editor with that id, whose success continuation
    holds that editor and whose failure continuation is [errorCallback];
    for any other id [onRemove], like [onSave], returns the component as it
    is. *)
Theorem save_and_remove_requests_leave_the_state
    (i : string) (ops : JsonPatchData) (c : Component) :
  state (onSave i ops c) = state c ∧
  state (onRemove i c) = state c ∧
  (i ∉ editorIds c → onRemove i c = c) ∧
  (i ∈ editorIds c →
     ∃ (k : nat) e,
       editorList c !! k = Some e ∧ id (instance e) = i ∧
       (∀ j e', j < k → editorList c !! j = Some e' → id (instance e') ≠ i) ∧
       calls (onSave i ops c)
         = calls c ++ [updateMetadata false (file (props c)) (template e) ops
                         (saveSuccess e) errorCallbackRef] ∧
       calls (onRemove i c)
         = calls c ++ [deleteMetadata false (file (props c)) (template e)
                         (removeSuccess e) errorCallbackRef]).
Proof.
  unfold onSave, onRemove.
  destruct (getEditor i c) as [e|] eqn:Hget.
  - split; [done|]. split; [done|]. split.
    + intros H. apply getEditor_None in H. congruence.
    + intros _. apply getEditor_first_at in Hget as (k & Hk & Hp & Hlt).
      exists k, e. split; [done|]. split; [by apply String.eqb_eq|].
      split; [|done]. intros j e' Hj He'. apply String.eqb_neq. by eapply Hlt.
  - split; [done|]. split; [done|]. split; [done|].
    intros H. apply getEditor_None in Hget. done.
Qed.

Lemma save_and_remove_requests_leave_the_state_witness :
  let c := loaded [editor1; editor2] [] in
  ("2" ∈ editorIds c) ∧ ("7" ∉ editorIds c) ∧ onRemove "7" c = c ∧
  calls (onRemove "2" c)
    = [deleteMetadata false (file (props c)) (template editor2)
         (removeSuccess editor2) errorCallbackRef].
Proof.
  intros c.
  assert ("2" ∈ editorIds c) as H2 by decide_by_computation.
  assert ("7" ∉ editorIds c) as H7 by decide_by_computation.
  destruct (save_and_remove_requests_leave_the_state "7" [] c) as (_ & _ & Habs & _).
  destruct (save_and_remove_requests_leave_the_state "2" [] c) as (_ & _ & _ & Hpres).
  split; [exact H2|]. split; [exact H7|]. split; [exact (Habs H7)|].
  destruct (Hpres H2) as (k & e & Hk & Hid & _ & _ & Hcalls).
  destruct k as [|[|k]]; vm_compute in Hk; try discriminate Hk.
  - injection Hk as <-. vm_compute in Hid. discriminate Hid.
  - injection Hk as <-. exact Hcalls.
Defined.

(** ** What the view shows *)

(** X5.  [render] never shows the loading indicator together with the
    error or with the editor area, and always shows one of the three; the
    template dropdown comes only with the editor area; and the editor area
    shows the store as it is: busy exactly when [isLoading], the empty
    content for an empty store, otherwise the editors of the store. *)
Theorem render_shows_the_store (c : Component) :
  let v := render c in
  (loadingIndicator v = true ↔ inlineError v = false ∧ instanceEditor v = None) ∧
  (is_Some (actions v) → is_Some (instanceEditor v)) ∧
  (is_Some (instanceEditor v) ↔ isLoaded c) ∧
  (∀ w, instanceEditor v = Some w →
        w = editorArea (isLoading (state c)) (canEdit c) (editorList c)).
Proof.
  unfold render, isLoaded, editorList. cbv zeta.
  destruct (templates (state c)) as [ts|], (editors (state c)) as [es|],
    (hasError (state c)), (canEdit c); simpl;
    rewrite ?is_Some_alt;
    (split; [split; [intros ?|intros [? ?]]; done|]);
    (split; [done|]); (split; [tauto|]);
    intros w [=]; subst w; by destruct es.
Qed.

Lemma render_shows_the_store_witness :
  let c := loaded [editor1; editor2] [] in
  is_Some (actions (render c)) ∧
  instanceEditor (render c)
    = Some {| wrapperIsLoading := false; children := Instances [editor1; editor2] |}.
Proof.
  intros c.
  destruct (render_shows_the_store c) as (_ & Hdrop & _ & Harea).
  assert (is_Some (actions (render c))) as Ha by (by eexists).
  split; [exact Ha|].
  destruct (Hdrop Ha) as [w Hw]. rewrite Hw. f_equal. exact (Harea w Hw).
Defined.

(** X6.  A failure after the list has loaded keeps the editors and the
    templates: [render] then shows the error together with the unchanged
    editor area, idle, and with the same dropdown as before. *)
Theorem failure_after_load_keeps_the_editors (arg : Payload) (c : Component) :
  isLoaded c →
  let c' := invoke errorCallbackRef arg c in
  editors (state c') = editors (state c) ∧
  templates (state c') = templates (state c) ∧
  inlineError (render c') = true ∧
  loadingIndicator (render c') = false ∧
  actions (render c') = actions (render c) ∧
  instanceEditor (render c') = Some (editorArea false (canEdit c) (editorList c)).
Proof.
  intros [[es Hes] [ts Hts]]. simpl.
  split; [done|]. split; [done|]. split; [done|].
  unfold render, editorList. simpl. rewrite Hes, Hts. simpl.
  split; [done|]. split; [done|]. by destruct es.
Qed.

Lemma failure_after_load_keeps_the_editors_witness :
  let c := loaded [editor1; editor2] [] in
  let c' := invoke errorCallbackRef nothing (onSave "1" [] c) in
  isLoaded (onSave "1" [] c) ∧
  inlineError (render c') = true ∧
  instanceEditor (render c')
    = Some {| wrapperIsLoading := false; children := Instances [editor1; editor2] |}.
Proof.
  intros c c'.
  assert (isLoaded (onSave "1" [] c)) as H by (split; by eexists).
  destruct (failure_after_load_keeps_the_editors nothing (onSave "1" [] c) H)
    as (_ & _ & Herr & _ & _ & Harea).
  split; [exact H|]. split; [exact Herr|exact Harea].
Defined.

(** ** Sequences of events *)

Section Steps.
Implicit Types (c : Component) (ev : Event) (evs : list Event).

Lemma state_onModification i dirty c :
  templates (state (onModification i dirty c)) = templates (state c) ∧
  isLoading (state (onModification i dirty c)) = isLoading (state c) ∧
  hasError (state (onModification i dirty c)) = hasError (state c) ∧
  (is_Some (editors (state c)) → is_Some (editors (state (onModification i dirty c)))) ∧
  calls (onModification i dirty c) = calls c ∧
  props (onModification i dirty c) = props c.
Proof.
  destruct (onModification_cases i c) as [H|(k & e & F)].
  - by rewrite (onModification_absent _ _ _ H).
  - rewrite (onModification_present _ _ _ _ _ F). simpl.
    repeat split; done.
Qed.

Lemma step_props c ev : props (step c ev) = props c.
Proof.
  destruct ev as [|t|i ops|i|i dirty|k arg]; simpl; try done.
  - unfold onSave. by destruct (getEditor i c).
  - unfold onRemove. by destruct (getEditor i c).
  - apply state_onModification.
  - by destruct k, arg.
Qed.

Lemma step_hasError c ev :
  ¬ isListSuccess ev → hasError (state (step c ev)) = hasError (state c) ∨
                       hasError (state (step c ev)) = true.
Proof.
  intros Hev. destruct ev as [|t|i ops|i|i dirty|k arg]; simpl; try (by left).
  - left. unfold onSave. by destruct (getEditor i c).
  - left. unfold onRemove. by destruct (getEditor i c).
  - left. apply state_onModification.
  - destruct k, arg; simpl in *; (by left) || (by right) || tauto.
Qed.

Lemma step_templates c ev :
  ¬ isListSuccess ev → templates (state (step c ev)) = templates (state c).
Proof.
  intros Hev. destruct ev as [|t|i ops|i|i dirty|k arg]; simpl; try done.
  - unfold onSave. by destruct (getEditor i c).
  - unfold onRemove. by destruct (getEditor i c).
  - apply state_onModification.
  - by destruct k, arg.
Qed.

Lemma step_isLoaded c ev : isLoaded c → isLoaded (step c ev).
Proof.
  unfold isLoaded. intros [He Ht].
  destruct ev as [|t|i ops|i|i dirty|k arg]; simpl; try done.
  - unfold onSave. by destruct (getEditor i c).
  - unfold onRemove. by destruct (getEditor i c).
  - destruct (state_onModification i dirty c) as (-> & _ & _ & H & _). by split; [apply H|].
  - destruct k, arg; simpl; try done; split; by (done || eexists).
Qed.

Lemma step_completes_calls c k arg : calls (invoke k arg c) = calls c.
Proof. by destruct k, arg. Qed.

Lemma run_snoc evs ev c : run (evs ++ [ev]) c = step (run evs c) ev.
Proof. unfold run. by rewrite foldl_app. Qed.
End Steps.

(** X7.  Once an error is set, it stays set until a list call succeeds:
    after any sequence of mounts, user actions and completions that has no
    list success, [hasError] is still true and [render] still shows the
    error and no loading indicator. *)
Theorem error_stays_until_list_success (evs : list Event) (c : Component) :
  hasError (state c) = true →
  Forall (λ ev, ¬ isListSuccess ev) evs →
  hasError (state (run evs c)) = true ∧
  inlineError (render (run evs c)) = true ∧
  loadingIndicator (render (run evs c)) = false.
Proof.
  intros Herr Hevs.
  assert (hasError (state (run evs c)) = true) as H.
  { induction evs as [|ev evs IH] using rev_ind; [done|].
    apply Forall_app in Hevs as [Hevs Hev]. apply Forall_inv in Hev.
    rewrite run_snoc. destruct (step_hasError (run evs c) ev Hev) as [->| ->]; auto. }
  split; [done|]. unfold render. cbv zeta. by rewrite H.
Qed.

Lemma error_stays_until_list_success_witness :
  let c := invoke errorCallbackRef nothing (loaded [editor1] []) in
  let evs := [userModify "1" true; userSave "1" [];
              completes (saveSuccess editor1) (oneEditor saved1);
              userAdd {| templateKey := "properties" |};
              completes addSuccess (oneEditor editor2)] in
  hasError (state c) = true ∧ inlineError (render (run evs c)) = true.
Proof.
  intros c evs.
  assert (Forall (λ ev, ¬ isListSuccess ev) evs) as Hevs.
  { repeat constructor; simpl; tauto. }
  destruct (error_stays_until_list_success evs c eq_refl Hevs) as (_ & H & _).
  split; [reflexivity|exact H].
Defined.

(** X8.  Once the list has loaded, it stays loaded: after any sequence of
    events the editors and the templates are still defined, so [render]
    shows the editor area and never the loading indicator again; and
    without a further list success the templates are the same. *)
Theorem loaded_store_stays_loaded (evs : list Event) (c : Component) :
  isLoaded c →
  isLoaded (run evs c) ∧
  loadingIndicator (render (run evs c)) = false ∧
  is_Some (instanceEditor (render (run evs c))) ∧
  (Forall (λ ev, ¬ isListSuccess ev) evs →
   templates (state (run evs c)) = templates (state c)).
Proof.
  intros Hl.
  assert (isLoaded (run evs c)) as H.
  { induction evs as [|ev evs IH] using rev_ind; [done|].
    rewrite run_snoc. by apply step_isLoaded. }
  split; [done|]. destruct H as [[es Hes] [ts Hts]].
  split; [|split].
  - unfold render. cbv zeta. rewrite Hes, Hts. simpl. apply andb_false_r.
  - unfold render. cbv zeta. rewrite Hes, Hts. simpl. by eexists.
  - clear Hes Hts. induction evs as [|ev evs IH] using rev_ind; [done|].
    intros [Hevs Hev]%Forall_app. apply Forall_inv in Hev.
    rewrite run_snoc, step_templates by done. by apply IH.
Qed.

Lemma loaded_store_stays_loaded_witness :
  let c := loaded [editor1; editor2] [{| templateKey := "properties" |}] in
  let evs := [userRemove "2"; completes (removeSuccess editor2) nothing;
              completes (removeSuccess editor2) nothing;
              completes errorCallbackRef nothing] in
  isLoaded c ∧ loadingIndicator (render (run evs c)) = false ∧
  templates (state (run evs c)) = Some [{| templateKey := "properties" |}].
Proof.
  intros c evs.
  assert (isLoaded c) as H by (split; by eexists).
  assert (Forall (λ ev, ¬ isListSuccess ev) evs) as Hevs.
  { repeat constructor; simpl; tauto. }
  destruct (loaded_store_stays_loaded evs c H) as (_ & Hind & _ & Hts).
  split; [exact H|]. split; [exact Hind|exact (Hts Hevs)].
Defined.

(** X9.  No completion ever issues an API call: whatever continuations the
    API runs, with whatever arguments, the log of calls is the same
    afterwards (no retry after a failure, no new list call after a change);
    and no event at all changes the props. *)
Theorem completions_issue_no_calls (evs : list Event) (c : Component) :
  props (run evs c) = props c ∧
  (Forall (λ ev, ∃ k arg, ev = completes k arg) evs → calls (run evs c) = calls c).
Proof.
  split.
  - induction evs as [|ev evs IH] using rev_ind; [done|].
    by rewrite run_snoc, step_props.
  - induction evs as [|ev evs IH] using rev_ind; [done|].
    intros [Hevs Hev]%Forall_app. apply Forall_inv in Hev as (k & arg & ->).
    rewrite run_snoc. simpl. rewrite step_completes_calls. by apply IH.
Qed.

Lemma completions_issue_no_calls_witness :
  let c := onRemove "2" (loaded [editor1; editor2] []) in
  let evs := [completes errorCallbackRef nothing;
              completes (removeSuccess editor2) nothing] in
  calls (run evs c) = calls c.
Proof.
  intros c evs.
  destruct (completions_issue_no_calls evs c) as [_ H].
  apply H. repeat constructor; by do 2 eexists.
Defined.

(** ** Completions for an editor that may have left the store *)

Lemma onSaveSuccessHandler_absent (e e' : MetadataEditor) (c : Component) :
  e ∉ editorList c →
  editorList (onSaveSuccessHandler e e' c)
    = take (length (editorList c) - 1) (editorList c) ++ [e'].
Proof.
  intros Hin. apply indexOf_absent in Hin.
  unfold editorList at 1. rewrite onSaveSuccessHandler_editors, Hin. simpl.
  apply splice_minus_1.
Qed.

(** X10.  The remove-success handler always takes exactly one editor out of
    a non-empty store, whether or not the editor it was given is there: the
    result is a sublist of the store, one shorter; when the editor is not
    in the store, it is the last editor that goes.  An empty store stays
    empty.  The templates and the flags are not touched. *)
Theorem remove_success_always_deletes_one (e : MetadataEditor) (c : Component) :
  let c' := onRemoveSuccessHandler e c in
  length (editorList c') = length (editorList c) - 1 ∧
  editorList c' `sublist_of` editorList c ∧
  (e ∉ editorList c →
     editorList c' = take (length (editorList c) - 1) (editorList c)) ∧
  templates (state c') = templates (state c) ∧
  isLoading (state c') = isLoading (state c) ∧
  hasError (state c') = hasError (state c).
Proof.
  intros c'. subst c'.
  split; [|split; [|split; [apply onRemoveSuccessHandler_absent|done]]].
  - destruct (decide (e ∈ editorList c)) as [Hin|Hin].
    + destruct (onRemoveSuccessHandler_present e c Hin) as (i & Hi & _ & ->).
      apply length_delete. by eexists.
    + rewrite (onRemoveSuccessHandler_absent e c Hin), length_take. lia.
  - unfold editorList at 1. rewrite onRemoveSuccessHandler_editors. simpl.
    apply splice_sublist.
Qed.

Lemma remove_success_always_deletes_one_witness :
  let c := loaded [editor1; editor2] [] in
  (editor3 ∉ editorList c) ∧
  editorList (onRemoveSuccessHandler editor3 c) = [editor1].
Proof.
  intros c.
  assert (editor3 ∉ editorList c) as H by decide_by_computation.
  destruct (remove_success_always_deletes_one editor3 c) as (_ & _ & Habs & _).
  split; [exact H|exact (Habs H)].
Defined.

(** X11.  After the save-success handler the new editor is in the store,
    whatever the store was: the store keeps its length, except that an
    empty store gets the new editor as its only one; when the old editor is
    not in the store, the new one takes the place of the last editor. *)
Theorem save_success_always_stores_the_new_editor
    (oldEditor newEditor : MetadataEditor) (c : Component) :
  let c' := onSaveSuccessHandler oldEditor newEditor c in
  newEditor ∈ editorList c' ∧
  length (editorList c') = max 1 (length (editorList c)) ∧
  (oldEditor ∉ editorList c →
     editorList c' = take (length (editorList c) - 1) (editorList c) ++ [newEditor]).
Proof.
  intros c'. subst c'.
  destruct (decide (oldEditor ∈ editorList c)) as [Hin|Hin].
  - destruct (onSaveSuccessHandler_present oldEditor newEditor c Hin) as (i & Hi & _ & ->).
    apply lookup_lt_Some in Hi.
    split; [by apply list_elem_of_insert|]. split; [rewrite length_insert; lia|done].
  - rewrite (onSaveSuccessHandler_absent _ _ _ Hin).
    split; [apply elem_of_app; right; by apply list_elem_of_singleton|].
    split; [|done]. rewrite length_app, length_take. simpl. lia.
Qed.

Lemma save_success_always_stores_the_new_editor_witness :
  let c := construct (sampleProps (Js.Bool true)) 0 in
  (editor1 ∉ editorList c) ∧
  editorList (onSaveSuccessHandler editor1 saved1 c) = [saved1].
Proof.
  intros c.
  assert (editor1 ∉ editorList c) as H by decide_by_computation.
  destruct (save_success_always_stores_the_new_editor editor1 saved1 c) as (_ & _ & Habs).
  split; [exact H|exact (Habs H)].
Defined.

(** ** Dirty tracking and the other operations *)

(** X12.  [onModification] keeps the ids of the store, in their order, and
    so keeps them unique.  Afterwards the id it was given resolves to the
    copy with the new flag, and every other id resolves as before. *)
Theorem modification_keeps_ids_and_resolves_the_copy
    (i : string) (dirty : bool) (c : Component) :
  let c' := onModification i dirty c in
  editorIds c' = editorIds c ∧
  (uniqueIds c → uniqueIds c') ∧
  (∀ e, getEditor i c = Some e → getEditor i c' = Some (dirtyCopy dirty e c)) ∧
  (∀ j, j ≠ i → getEditor j c' = getEditor j c).
Proof.
  intros c'. subst c'.
  destruct (onModification_cases i c) as [H|(k & e & F)].
  - rewrite (onModification_absent _ _ _ H).
    split; [done|]. split; [done|]. split; [|done].
    intros e He. apply getEditor_None in H. congruence.
  - pose proof (onModification_present i dirty c k e F) as E.
    assert (editorList (onModification i dirty c)
              = <[k:=dirtyCopy dirty e c]> (editorList c)) as El by (by rewrite E).
    assert (editorIds (onModification i dirty c) = editorIds c) as Eids.
    { unfold editorIds. rewrite El, list_fmap_insert. apply list_insert_id.
      destruct F as (Hk & _). by rewrite list_lookup_fmap, Hk. }
    split; [done|]. split; [unfold uniqueIds; by rewrite Eids|]. split.
    + intros e' He'. apply getEditor_first_at in He' as (k' & F').
      destruct (first_at_unique _ _ _ _ _ _ F F') as [<- <-].
      apply getEditor_first_at. exists k. rewrite El.
      destruct F as (Hk & Hp & Hlt). split.
      { apply list_lookup_insert_eq. by eapply lookup_lt_Some. }
      split; [done|].
      intros j y Hj Hy. rewrite list_lookup_insert_ne in Hy by lia. by eapply Hlt.
    + intros j Hj. unfold getEditor. fold (editorList (onModification i dirty c)).
      fold (editorList c). rewrite El.
      destruct F as (Hk & Hp & _). apply String.eqb_eq in Hp.
      apply find_insert_other with (y := e); [done|..];
        apply String.eqb_neq; simpl; congruence.
Qed.

Lemma modification_keeps_ids_and_resolves_the_copy_witness :
  let c := loaded [editor1; editor2] [] in
  let c' := onModification "2" true c in
  uniqueIds c ∧ getEditor "2" c = Some editor2 ∧
  uniqueIds c' ∧ getEditor "2" c' = Some (sampleEditor 100 "2" true) ∧
  getEditor "1" c' = Some editor1.
Proof.
  intros c c'.
  assert (uniqueIds c) as Hu by decide_by_computation.
  destruct (modification_keeps_ids_and_resolves_the_copy "2" true c)
    as (_ & Huniq & Hcopy & Hother).
  split; [exact Hu|]. split; [reflexivity|]. split; [exact (Huniq Hu)|].
  split; [exact (Hcopy editor2 eq_refl)|].
  transitivity (getEditor "1" c); [apply Hother; discriminate|reflexivity].
Defined.

(** X13.  The add-success handler does not look at the id it is given: an
    editor whose id is already in the store is appended all the same, and
    the ids of the store are then no longer unique. *)
Theorem add_success_of_known_id_duplicates (e : MetadataEditor) (c : Component) :
  id (instance e) ∈ editorIds c →
  editorIds (invoke addSuccess (oneEditor e) c) = editorIds c ++ [id (instance e)] ∧
  ¬ uniqueIds (invoke addSuccess (oneEditor e) c).
Proof.
  intros Hin.
  assert (editorIds (invoke addSuccess (oneEditor e) c)
            = editorIds c ++ [id (instance e)]) as E.
  { change (invoke addSuccess (oneEditor e) c) with (onAddSuccessHandler e c).
    unfold editorIds. unfold editorList at 1.
    rewrite onAddSuccessHandler_editors. simpl. by rewrite fmap_app. }
  split; [done|]. unfold uniqueIds. rewrite E. intros Hnd.
  apply NoDup_app in Hnd as (_ & Hdisj & _).
  apply (Hdisj _ Hin). by apply list_elem_of_singleton.
Qed.

Lemma add_success_of_known_id_duplicates_witness :
  let c := loaded [editor1; editor2] [] in
  ("2" ∈ editorIds c) ∧
  editorIds (invoke addSuccess (oneEditor other2) c) = ["1"; "2"; "2"].
Proof.
  intros c.
  assert ("2" ∈ editorIds c) as H by decide_by_computation.
  destruct (add_success_of_known_id_duplicates other2 c H) as [E _].
  split; [exact H|exact E].
Defined.

(** X14.  A save that completes after [onModification] ran for the same
    editor does not find the editor it was issued for: the store (unique
    ids, every editor allocated) holds a copy in its place.  The
    save-success handler then writes the new editor over the last editor of
    the store; unless the saved editor was the last one, the copy stays,
    and with it a second editor with the saved id. *)
Theorem save_after_modification_overwrites_last
    (i : string) (ops : JsonPatchData) (dirty : bool)
    (e newEditor : MetadataEditor) (c : Component) :
  uniqueIds c →
  allocated c →
  getEditor i c = Some e →
  let c1 := onModification i dirty (onSave i ops c) in
  let c2 := invoke (saveSuccess e) (oneEditor newEditor) c1 in
  (e ∉ editorList c1) ∧
  editorList c2
    = take (length (editorList c) - 1) (editorList c1) ++ [newEditor] ∧
  (last (editorList c) ≠ Some e → id (instance newEditor) = i → ¬ uniqueIds c2).
Proof.
  intros Hu Halloc Hget c1 c2.
  pose proof (onSave_known_id i ops c e Hget) as Hsave.
  set (a := updateMetadata _ _ _ _ _ _) in Hsave.
  destruct (proj1 (getEditor_first_at i c e) Hget) as (k & F).
  pose proof (onModification_present i dirty (call a c) k e F) as E.
  set (copy := dirtyCopy dirty e (call a c)) in E.
  assert (editorList c1 = <[k:=copy]> (editorList c)) as E1.
  { subst c1. by rewrite Hsave, E. }
  destruct F as (Hk & Hp & _). apply String.eqb_eq in Hp.
  pose proof (lookup_lt_Some _ _ _ Hk) as Hlt.
  assert (e ∉ editorList c1) as Hout.
  { rewrite E1. intros (j & Hj)%list_elem_of_lookup_1.
    apply list_lookup_insert_Some in Hj as [(_ & Hcopy & _)|(Hne & Hj)].
    - unfold allocated in Halloc. rewrite Forall_forall in Halloc.
      assert (address e < heap_next c) as Ha.
      { apply Halloc. by eapply list_elem_of_lookup_2. }
      rewrite <- Hcopy in Ha. simpl in Ha. lia.
    - apply Hne. apply (NoDup_lookup _ _ _ (id (instance e)) Hu);
        unfold editorIds; rewrite list_lookup_fmap; [by rewrite Hk|by rewrite Hj]. }
  assert (editorList c2
            = take (length (editorList c) - 1) (editorList c1) ++ [newEditor]) as E2.
  { subst c2.
    change (invoke (saveSuccess e) (oneEditor newEditor) c1)
      with (onSaveSuccessHandler e newEditor c1).
    rewrite (onSaveSuccessHandler_absent _ _ _ Hout).
    by rewrite E1, length_insert. }
  split; [done|]. split; [done|].
  intros Hlast Hid. unfold uniqueIds, editorIds. rewrite E2, fmap_app.
  intros (_ & Hdisj & _)%NoDup_app.
  apply (Hdisj i); [|simpl; rewrite Hid; by apply list_elem_of_singleton].
  apply list_elem_of_fmap. exists copy. split; [done|].
  apply list_elem_of_lookup. exists k.
  rewrite lookup_take_lt.
  - rewrite E1. by apply list_lookup_insert_eq.
  - rewrite last_lookup in Hlast.
    destruct (decide (k = pred (length (editorList c)))) as [->|?]; [done|lia].
Qed.

Lemma save_after_modification_overwrites_last_witness :
  let c := loaded [editor1; editor2] [] in
  let c1 := onModification "1" true (onSave "1" [] c) in
  let c2 := invoke (saveSuccess editor1) (oneEditor saved1) c1 in
  uniqueIds c ∧ allocated c ∧ getEditor "1" c = Some editor1 ∧
  last (editorList c) ≠ Some editor1 ∧
  editorList c2 = [sampleEditor 100 "1" true; saved1] ∧ ¬ uniqueIds c2.
Proof.
  intros c c1 c2.
  assert (uniqueIds c) as Hu by decide_by_computation.
  assert (allocated c) as Ha by decide_by_computation.
  assert (last (editorList c) ≠ Some editor1) as Hl by (vm_compute; discriminate).
  destruct (save_after_modification_overwrites_last "1" [] true editor1 saved1 c
              Hu Ha eq_refl) as (_ & Hlist & Hdup).
  split; [exact Hu|]. split; [exact Ha|]. split; [reflexivity|]. split; [exact Hl|].
  split; [exact Hlist|exact (Hdup Hl eq_refl)].
Defined.

(** ** Add, from the request to its completion *)

(** X15.  On a loaded store [onAdd] always issues one [createMetadata] call
    and keeps the editors; until the call completes the editor area is
    shown busy with the same content.  When the call succeeds the area is
    idle again and lists the editors of the store followed by the new one
    (never the empty content), and the dropdown of a user who can edit
    reports the template of the new editor among the used ones. *)
Theorem add_request_then_success
    (t : MetadataEditorTemplate) (e : MetadataEditor) (c : Component) :
  isLoaded c →
  let issued := onAdd t c in
  let c' := invoke addSuccess (oneEditor e) issued in
  calls issued
    = calls c ++ [createMetadata false (file (props c)) t addSuccess errorCallbackRef] ∧
  editors (state issued) = editors (state c) ∧
  instanceEditor (render issued) = Some (editorArea true (canEdit c) (editorList c)) ∧
  instanceEditor (render c')
    = Some {| wrapperIsLoading := false; children := Instances (editorList c ++ [e]) |} ∧
  (canEdit c = true →
     ∃ d, actions (render c') = Some d ∧
          usedTemplates d = Some ((template <$> editorList c) ++ [template e])).
Proof.
  intros [[es Hes] [ts Hts]] issued c'.
  split; [done|]. split; [done|]. split.
  { unfold render, editorList. simpl. rewrite Hes, Hts. simpl. by destruct es. }
  assert (editors (state c') = Some (es ++ [e])) as He'.
  { subst c' issued.
    change (invoke addSuccess (oneEditor e) ?x) with (onAddSuccessHandler e x).
    rewrite onAddSuccessHandler_editors. unfold editorList. simpl. by rewrite Hes. }
  assert (templates (state c') = Some ts) as Ht' by (simpl; done).
  assert ((Js.length (es ++ [e]) =? 0)%Z = false) as Hlen.
  { apply Z.eqb_neq. unfold Js.length. rewrite length_app. simpl. lia. }
  assert (canEdit c' = canEdit c) as Hcan by done.
  unfold editorList. rewrite Hes. simpl default.
  split.
  - unfold render. cbv zeta. rewrite He', Ht'. simpl. by rewrite Hlen.
  - intros Hc. unfold render. cbv zeta. rewrite He', Ht', Hcan, Hc. simpl.
    eexists. split; [done|]. simpl. by rewrite fmap_app.
Qed.

Lemma add_request_then_success_witness :
  let c := loaded [] [{| templateKey := "properties" |}] in
  let c' := invoke addSuccess (oneEditor editor1)
              (onAdd {| templateKey := "properties" |} c) in
  isLoaded c ∧
  instanceEditor (render c')
    = Some {| wrapperIsLoading := false; children := Instances [editor1] |}.
Proof.
  intros c c'.
  assert (isLoaded c) as H by (split; by eexists).
  destruct (add_request_then_success {| templateKey := "properties" |} editor1 c H)
    as (_ & _ & _ & Harea & _).
  split; [exact H|exact Harea].
Defined.
